(** * Decision-time detection of the perceptual decision making notebook

    The notebook [mini-projects/04_decision_making.ipynb] asks for a function
    [get_decision_time] and gives the code it is made of:
<<
    smoothed_rates_A = rate_monitor_A.smooth_rate(window="flat",
                                                  width=avg_window_width) / b2.Hz
    idx_A = numpy.argmax(smoothed_rates_A > rate_threshold/b2.Hz)
    t_A = idx_A * b2.defaultclock.dt
>>
    The function returns the tuple [(decision_time_left, decision_time_right)],
    that is, the fragment run once on each of the two rate monitors.

    Conventions of the embedding.
    - A rate is an exact rational [Q], stored as its numeric value in Hz, so
      that the divisions by [b2.Hz] are the identity on the stored numbers.
    - A time is a rational in the unit of the sampling step [dt], which is the
      global [b2.defaultclock.dt] of the source and a parameter here;
      [call_get_decision_time] reads it from the globals.
    - The window width is a number of samples.
    - A Python exception is [None]. *)

From Stdlib Require Import QArith ZArith List Lia Lqa.
From stdpp Require Import base option list.

Local Open Scope Q_scope.

(** ** numpy *)

Module Numpy.

(** The linear scan of [numpy.argmax]: [best] is the largest value seen so far,
    [besti] its index, [i] the index of the head of the remaining array.  The
    index moves only on a strictly larger value, so the first occurrence of the
    maximum wins.  On booleans [False < True]. *)
Fixpoint argmax_from (best : bool) (besti i : nat) (bs : list bool) : nat :=
  match bs with
  | [] => besti
  | b :: bs' =>
      if negb best && b then argmax_from b i (S i) bs'
      else argmax_from best besti (S i) bs'
  end.

(** [numpy.argmax] of a one-dimensional boolean array; an empty array raises
    [ValueError]. *)
Definition argmax (bs : list bool) : option nat :=
  match bs with
  | [] => None
  | b :: bs' => Some (argmax_from b 0%nat 1%nat bs')
  end.

(** The element-wise comparison [x > thr] of one number. *)
Definition gtb (x thr : Q) : bool := negb (Qle_bool x thr).

(** [xs > thr] on an array: a fresh boolean array. *)
Definition greater (xs : list Q) (thr : Q) : list bool :=
  map (fun x => gtb x thr) xs.

End Numpy.

(** ** Brian2 *)

Module Brian2.

(** Modelled from the spec: the sum under the flat causal window of
    [smooth_rate], whose code is not in the repository.  It adds the [w]
    samples ending at index [i], newest first; the samples before the start of
    the recording count as zero. *)
Fixpoint window_sum (xs : list Q) (i w : nat) {struct w} : Q :=
  match w with
  | O => 0
  | S w' =>
      nth i xs 0 + match i with
                   | O => 0
                   | S i' => window_sum xs i' w'
                   end
  end.

(** Modelled from the spec: [PopulationRateMonitor.smooth_rate] belongs to the
    simulation toolkit the notebook calls and its code is not in the
    repository.  The spec describes it as a causal moving average with a flat
    window of the given width, in samples, applied to the raw series: sample
    [i] of the result is the mean of the window ending at sample [i]. *)
Definition moving_average (rate : list Q) (width : Z) : list Q :=
  map (fun i => window_sum rate i (Z.to_nat width) / inject_Z width)
      (seq 0 (length rate)).

(** Modelled from the spec: [rate_monitor.smooth_rate(window="flat",
    width=...)] returns the moving average.  The spec gives the smoothing no
    failure case of its own, so the call always returns; it describes the
    window for a positive width only, and on any other width the window of
    the model holds no sample. *)
Definition smooth_rate (rate : list Q) (width : Z) : option (list Q) :=
  Some (moving_average rate width).

End Brian2.

(** ** The detector *)

(** The code fragment of the notebook on one rate monitor. *)
Definition decision_time (rate : list Q) (avg_window_width : Z)
    (rate_threshold dt : Q) : option Q :=
  match Brian2.smooth_rate rate avg_window_width with
  | None => None
  | Some smoothed_rates =>
      match Numpy.argmax (Numpy.greater smoothed_rates rate_threshold) with
      | None => None
      | Some idx => Some (inject_Z (Z.of_nat idx) * dt)
      end
  end.

(** [get_decision_time(rate_monitor_A, rate_monitor_B, avg_window_width,
    rate_threshold)]: the tuple of the two decision times. *)
Definition get_decision_time (rate_A rate_B : list Q) (avg_window_width : Z)
    (rate_threshold dt : Q) : option (Q * Q) :=
  match decision_time rate_A avg_window_width rate_threshold dt with
  | None => None
  | Some t_A =>
      match decision_time rate_B avg_window_width rate_threshold dt with
      | None => None
      | Some t_B => Some (t_A, t_B)
      end
  end.

(** ** Vocabulary of the properties *)

(** The smoothed series exceeds the threshold at sample [k]. *)
Definition exceeds_at (sm : list Q) (thr : Q) (k : nat) : Prop :=
  exists v, sm !! k = Some v /\ thr < v.

(** Sample [k] is the first one at which the smoothed series exceeds the
    threshold. *)
Definition first_crossing (sm : list Q) (thr : Q) (k : nat) : Prop :=
  exceeds_at sm thr k /\ forall j, (j < k)%nat -> ~ exceeds_at sm thr j.

(** The smoothed series exceeds the threshold somewhere. *)
Definition crosses (sm : list Q) (thr : Q) : Prop :=
  exists k, exceeds_at sm thr k.

(** The time of sample [k]. *)
Definition time_of (k : nat) (dt : Q) : Q := inject_Z (Z.of_nat k) * dt.

(** The mean of the window of [w] samples ending at sample [i]. *)
Definition mean (xs : list Q) (i w : nat) : Q :=
  Brian2.window_sum xs i w / inject_Z (Z.of_nat w).

(** A series that never falls. *)
Definition nondecreasing (xs : list Q) : Prop :=
  forall i j, (i <= j)%nat -> (j < length xs)%nat -> nth i xs 0 <= nth j xs 0.

(** The sample just before the window of [w] samples ending at [i]; zero
    before the start of the recording. *)
Definition older (xs : list Q) (i w : nat) : Q :=
  if (w <=? i)%nat then nth (i - w) xs 0 else 0.

(** Thresholding a raw series, with no smoothing: the scan of the fragment on
    the series itself. *)
Definition threshold_raw (rate : list Q) (thr dt : Q) : option Q :=
  match Numpy.argmax (Numpy.greater rate thr) with
  | None => None
  | Some idx => Some (time_of idx dt)
  end.

(** The series of the first scenario: silent for 50 samples, then 60 Hz. *)
Definition step_series (n : nat) : list Q := repeat 0 50 ++ repeat 60 (S n).

(** ** The default clock *)



(** ** The definitions on small inputs *)

Example argmax_first_maximum :
  Numpy.argmax [false; true; false; true] = Some 1%nat.
Proof. reflexivity. Qed.

Example argmax_all_false : Numpy.argmax [false; false; false] = Some 0%nat.
Proof. reflexivity. Qed.

Example argmax_empty : Numpy.argmax [] = None.
Proof. reflexivity. Qed.

Example greater_is_strict : Numpy.greater [44; 45; 46] 45 = [false; false; true].
Proof. reflexivity. Qed.

Example moving_average_two :
  Forall2 Qeq (Brian2.moving_average [0; 60; 60; 30] 2) [0; 30; 60; 45].
Proof. repeat constructor. Qed.

Example moving_average_three :
  Forall2 Qeq (Brian2.moving_average [30; 60; 90; 0] 3) [10; 30; 60; 50].
Proof. repeat constructor. Qed.

Example get_decision_time_left :
  get_decision_time [0; 20; 50; 70] [0; 10; 10; 5] 2 45 (1 # 10)
  = Some (3 # 10, 0 # 10).
Proof. reflexivity. Qed.

Example get_decision_time_empty : get_decision_time [] [0] 1 45 1 = None.
Proof. reflexivity. Qed.

(** ** [numpy.argmax] on a boolean array *)

Section Argmax.

Import Numpy.

Lemma gtb_true (x thr : Q) : gtb x thr = true <-> thr < x.
Proof.
  unfold gtb. rewrite negb_true_iff. split.
  - intros H. apply Qnot_le_lt. intros Hle.
    apply Qle_bool_iff in Hle. congruence.
  - intros H. destruct (Qle_bool x thr) eqn:E; [|reflexivity].
    apply Qle_bool_iff in E. exfalso. apply (Qlt_not_le _ _ H E).
Qed.

Lemma gtb_false (x thr : Q) : gtb x thr = false <-> x <= thr.
Proof.
  unfold gtb. rewrite negb_false_iff. apply Qle_bool_iff.
Qed.

Lemma greater_lookup (sm : list Q) (thr : Q) (k : nat) :
  greater sm thr !! k = (fun x => gtb x thr) <$> sm !! k.
Proof. unfold greater. apply list_lookup_fmap. Qed.

Lemma greater_true (sm : list Q) (thr : Q) (k : nat) :
  greater sm thr !! k = Some true <-> exceeds_at sm thr k.
Proof.
  rewrite greater_lookup. unfold exceeds_at. split.
  - destruct (sm !! k) as [v|]; simpl; [|discriminate].
    intros [= H]. exists v. split; [reflexivity|]. now apply gtb_true.
  - intros (v & -> & H). simpl. f_equal. now apply gtb_true.
Qed.

(** Once the maximum [True] has been seen the index no longer moves. *)
Lemma argmax_from_true (besti i : nat) (bs : list bool) :
  argmax_from true besti i bs = besti.
Proof.
  revert i. induction bs as [|b bs IH]; intros i; simpl; [reflexivity|].
  apply IH.
Qed.

(** While only [False] has been seen, the first [True] at offset [k] of the
    rest of the array is the answer. *)
Lemma argmax_from_first (besti i k : nat) (bs : list bool) :
  bs !! k = Some true ->
  (forall j, (j < k)%nat -> bs !! j <> Some true) ->
  argmax_from false besti i bs = (i + k)%nat.
Proof.
  revert i k. induction bs as [|b bs IH]; intros i k Hk Hbefore.
  - discriminate.
  - destruct k as [|k]; simpl in *.
    + injection Hk as ->. simpl. rewrite argmax_from_true. lia.
    + destruct b.
      * exfalso. apply (Hbefore 0%nat); [lia|reflexivity].
      * simpl. rewrite (IH (S i) k Hk); [lia|].
        intros j Hj. apply (Hbefore (S j)). lia.
Qed.

(** With no [True] at all the index stays where it was. *)
Lemma argmax_from_none (besti i : nat) (bs : list bool) :
  (forall j, bs !! j <> Some true) ->
  argmax_from false besti i bs = besti.
Proof.
  revert i. induction bs as [|b bs IH]; intros i Hno; simpl; [reflexivity|].
  destruct b.
  - exfalso. apply (Hno 0%nat). reflexivity.
  - simpl. apply IH. intros j. apply (Hno (S j)).
Qed.

Lemma argmax_first (bs : list bool) (k : nat) :
  bs !! k = Some true ->
  (forall j, (j < k)%nat -> bs !! j <> Some true) ->
  argmax bs = Some k.
Proof.
  destruct bs as [|b bs]; [discriminate|].
  intros Hk Hbefore. simpl. f_equal.
  destruct b.
  - rewrite argmax_from_true. destruct k as [|k]; [reflexivity|].
    exfalso. apply (Hbefore 0%nat); [lia|reflexivity].
  - destruct k as [|k]; [discriminate|].
    simpl in Hk. rewrite (argmax_from_first 0 1 k bs Hk); [reflexivity|].
    intros j Hj. apply (Hbefore (S j)). lia.
Qed.

Lemma argmax_none (bs : list bool) :
  bs <> [] ->
  (forall j, bs !! j <> Some true) ->
  argmax bs = Some 0%nat.
Proof.
  destruct bs as [|b bs]; [congruence|].
  intros _ Hno. simpl. f_equal. destruct b.
  - apply argmax_from_true.
  - apply argmax_from_none. intros j. apply (Hno (S j)).
Qed.

Lemma argmax_is_Some (bs : list bool) : bs <> [] -> is_Some (argmax bs).
Proof. destruct bs; [congruence|]. intros _. simpl. eauto. Qed.

End Argmax.

(** ** The fragment on one side *)

Section OneSide.

Import Numpy Brian2.

Lemma smooth_rate_Some (rate : list Q) (w : Z) :
  smooth_rate rate w = Some (moving_average rate w).
Proof. reflexivity. Qed.

Lemma smooth_rate_pos (rate : list Q) (w : Z) :
  (0 < w)%Z -> smooth_rate rate w = Some (moving_average rate w).
Proof. intros _. apply smooth_rate_Some. Qed.

Lemma moving_average_length (rate : list Q) (w : Z) :
  length (moving_average rate w) = length rate.
Proof. unfold moving_average. now rewrite length_map, length_seq. Qed.

Lemma moving_average_nonempty (rate : list Q) (w : Z) :
  rate <> [] -> moving_average rate w <> [].
Proof.
  intros Hne Hnil. apply Hne. apply length_zero_iff_nil.
  rewrite <- (moving_average_length rate w), Hnil. reflexivity.
Qed.

Lemma greater_nonempty (sm : list Q) (thr : Q) :
  sm <> [] -> greater sm thr <> [].
Proof. destruct sm; [congruence|discriminate]. Qed.

(** The thresholded scan of a smoothed series: the index of the first crossing,
    index 0 when there is none. *)
Lemma argmax_greater_first (sm : list Q) (thr : Q) (k : nat) :
  first_crossing sm thr k -> argmax (greater sm thr) = Some k.
Proof.
  intros [Hk Hbefore]. apply argmax_first.
  - now apply greater_true.
  - intros j Hj Htrue. apply (Hbefore j Hj). now apply greater_true.
Qed.

Lemma argmax_greater_none (sm : list Q) (thr : Q) :
  sm <> [] -> ~ crosses sm thr -> argmax (greater sm thr) = Some 0%nat.
Proof.
  intros Hne Hno. apply argmax_none.
  - now apply greater_nonempty.
  - intros j Htrue. apply Hno. exists j. now apply greater_true.
Qed.

(** Whether a boolean array holds [True], and where first. *)
Lemma first_true_dec (bs : list bool) :
  (exists k, bs !! k = Some true /\ forall j, (j < k)%nat -> bs !! j <> Some true)
  \/ (forall j, bs !! j <> Some true).
Proof.
  induction bs as [|b bs IH].
  - right. intros j. discriminate.
  - destruct b.
    + left. exists 0%nat. split; [reflexivity|]. intros j Hj. lia.
    + destruct IH as [(k & Hk & Hbefore)|Hno].
      * left. exists (S k). split; [exact Hk|].
        intros [|j] Hj; [discriminate|]. apply Hbefore. lia.
      * right. intros [|j]; [discriminate|]. apply Hno.
Qed.

Lemma first_crossing_dec (sm : list Q) (thr : Q) :
  (exists k, first_crossing sm thr k) \/ ~ crosses sm thr.
Proof.
  destruct (first_true_dec (greater sm thr)) as [(k & Hk & Hbefore)|Hno].
  - left. exists k. split; [now apply greater_true|].
    intros j Hj Hex. apply (Hbefore j Hj). now apply greater_true.
  - right. intros [k Hk]. apply (Hno k). now apply greater_true.
Qed.

Lemma first_crossing_unique (sm : list Q) (thr : Q) (k k' : nat) :
  first_crossing sm thr k -> first_crossing sm thr k' -> k = k'.
Proof.
  intros [Hk Hb] [Hk' Hb'].
  destruct (Nat.lt_trichotomy k k') as [Hlt|[Heq|Hgt]]; [|exact Heq|].
  - exfalso. apply (Hb' k Hlt Hk).
  - exfalso. apply (Hb k' Hgt Hk').
Qed.

Lemma time_of_0 (dt : Q) : time_of 0 dt == 0.
Proof. unfold time_of. change (inject_Z (Z.of_nat 0)) with 0. ring. Qed.

Lemma time_of_pos (k : nat) (dt : Q) :
  (0 < k)%nat -> 0 < dt -> 0 < time_of k dt.
Proof.
  intros Hk Hdt. unfold time_of.
  assert (0 < inject_Z (Z.of_nat k)).
  { change 0 with (inject_Z 0). rewrite <- Zlt_Qlt. lia. }
  now apply Qmult_lt_0_compat.
Qed.

Lemma time_of_mono (k k' : nat) (dt : Q) :
  (k <= k')%nat -> 0 <= dt -> time_of k dt <= time_of k' dt.
Proof.
  intros Hk Hdt. unfold time_of.
  assert (inject_Z (Z.of_nat k) <= inject_Z (Z.of_nat k')).
  { rewrite <- Zle_Qle. lia. }
  now apply Qmult_le_compat_r.
Qed.

Lemma decision_time_first (rate : list Q) (w : Z) (thr dt : Q) (k : nat) :
  (0 < w)%Z ->
  first_crossing (moving_average rate w) thr k ->
  decision_time rate w thr dt = Some (time_of k dt).
Proof.
  intros Hw Hk. unfold decision_time.
  rewrite (smooth_rate_pos rate w Hw), (argmax_greater_first _ _ _ Hk).
  reflexivity.
Qed.

Lemma decision_time_none (rate : list Q) (w : Z) (thr dt : Q) :
  (0 < w)%Z -> rate <> [] ->
  ~ crosses (moving_average rate w) thr ->
  decision_time rate w thr dt = Some (time_of 0 dt).
Proof.
  intros Hw Hne Hno. unfold decision_time.
  rewrite (smooth_rate_pos rate w Hw), (argmax_greater_none _ _); auto.
  now apply moving_average_nonempty.
Qed.

(** On a positive window and a recording that is not empty the fragment always
    returns: the time of the first crossing, or of sample 0. *)
Lemma decision_time_cases (rate : list Q) (w : Z) (thr dt : Q) :
  (0 < w)%Z -> rate <> [] ->
  (exists k, first_crossing (moving_average rate w) thr k
             /\ decision_time rate w thr dt = Some (time_of k dt))
  \/ (~ crosses (moving_average rate w) thr
      /\ decision_time rate w thr dt = Some (time_of 0 dt)).
Proof.
  intros Hw Hne.
  destruct (first_crossing_dec (moving_average rate w) thr) as [[k Hk]|Hno].
  - left. exists k. split; [exact Hk|]. now apply decision_time_first.
  - right. split; [exact Hno|]. now apply decision_time_none.
Qed.

(** The same on any window width. *)
Lemma decision_time_cases_any (rate : list Q) (w : Z) (thr dt : Q) :
  rate <> [] ->
  (exists k, first_crossing (moving_average rate w) thr k
             /\ decision_time rate w thr dt = Some (time_of k dt))
  \/ (~ crosses (moving_average rate w) thr
      /\ decision_time rate w thr dt = Some (time_of 0 dt)).
Proof.
  intros Hne. unfold decision_time. rewrite smooth_rate_Some.
  destruct (first_crossing_dec (moving_average rate w) thr) as [[k Hk]|Hno].
  - left. exists k. split; [exact Hk|].
    now rewrite (argmax_greater_first _ _ _ Hk).
  - right. split; [exact Hno|].
    rewrite argmax_greater_none; [reflexivity| |exact Hno].
    now apply moving_average_nonempty.
Qed.

(** What a returned time says about the series. *)
Lemma decision_time_inv (rate : list Q) (w : Z) (thr dt t : Q) :
  decision_time rate w thr dt = Some t ->
  rate <> [] /\
  ((exists k, first_crossing (moving_average rate w) thr k /\ t = time_of k dt)
   \/ (~ crosses (moving_average rate w) thr /\ t = time_of 0 dt)).
Proof.
  intros Hdt.
  assert (Hne : rate <> []).
  { intros ->. unfold decision_time in Hdt. rewrite smooth_rate_Some in Hdt.
    discriminate. }
  split; [exact Hne|].
  destruct (decision_time_cases_any rate w thr dt Hne) as [(k & Hk & E)|[Hno E]];
    rewrite E in Hdt; injection Hdt as <-; eauto.
Qed.

Lemma below_not_crosses (sm : list Q) (thr : Q) :
  Forall (fun v => v < thr) sm -> ~ crosses sm thr.
Proof.
  intros Hall (k & v & Hv & Hgt).
  rewrite Forall_forall in Hall.
  assert (v < thr).
  { apply Hall. apply list_elem_of_lookup. eauto. }
  lra.
Qed.

End OneSide.

(** ** The flat causal window *)

Section Smoothing.

Import Brian2.

Lemma moving_average_lookup (rate : list Q) (w : Z) (i : nat) :
  (i < length rate)%nat ->
  moving_average rate w !! i = Some (window_sum rate i (Z.to_nat w) / inject_Z w).
Proof.
  intros Hi. unfold moving_average.
  rewrite list_lookup_fmap, (lookup_seq_lt 0 (length rate) i Hi). reflexivity.
Qed.

Lemma moving_average_lookup_mean (rate : list Q) (w : Z) (i : nat) :
  (0 < w)%Z -> (i < length rate)%nat ->
  moving_average rate w !! i = Some (mean rate i (Z.to_nat w)).
Proof.
  intros Hw Hi. rewrite (moving_average_lookup rate w i Hi).
  unfold mean. rewrite Z2Nat.id by lia. reflexivity.
Qed.

Lemma moving_average_lookup_lt (rate : list Q) (w : Z) (i : nat) (v : Q) :
  moving_average rate w !! i = Some v -> (i < length rate)%nat.
Proof.
  intros H. apply lookup_lt_Some in H.
  now rewrite moving_average_length in H.
Qed.

(** *** Width one *)

Lemma window_sum_one (xs : list Q) (i : nat) :
  window_sum xs i 1 = nth i xs 0 + 0.
Proof. destruct i; reflexivity. Qed.

Lemma Qplus_0_div_1 (x : Q) : (x + 0) / inject_Z 1 = x.
Proof.
  destruct x as [n d]. unfold Qdiv, Qplus, Qmult, Qinv. simpl.
  f_equal; [lia|]. now rewrite !Pos.mul_1_r.
Qed.

Lemma moving_average_one (rate : list Q) : moving_average rate 1 = rate.
Proof.
  apply list_eq. intros i.
  destruct (Nat.lt_ge_cases i (length rate)) as [Hi|Hi].
  - rewrite (moving_average_lookup rate 1 i Hi).
    change (Z.to_nat 1) with 1%nat.
    rewrite window_sum_one, Qplus_0_div_1.
    destruct (lookup_lt_is_Some_2 rate i Hi) as [v Hv].
    rewrite Hv. f_equal. now rewrite nth_lookup, Hv.
  - rewrite (lookup_ge_None_2 rate i Hi). apply lookup_ge_None_2.
    now rewrite moving_average_length.
Qed.

(** *** Bounds *)

Lemma inject_Z_S (w : nat) :
  inject_Z (Z.of_nat (S w)) == inject_Z (Z.of_nat w) + 1.
Proof. rewrite Nat2Z.inj_succ. unfold Z.succ. now rewrite inject_Z_plus. Qed.

Lemma inject_Z_nat_nonneg (w : nat) : 0 <= inject_Z (Z.of_nat w).
Proof. change 0 with (inject_Z 0). rewrite <- Zle_Qle. lia. Qed.

Lemma inject_Z_nat_pos (w : nat) : (0 < w)%nat -> 0 < inject_Z (Z.of_nat w).
Proof. intros H. change 0 with (inject_Z 0). rewrite <- Zlt_Qlt. lia. Qed.

Lemma nth_bounded (xs : list Q) (c : Q) (j : nat) :
  Forall (fun x => x <= c) xs -> 0 <= c -> nth j xs 0 <= c.
Proof.
  intros Hall Hc. rewrite nth_lookup.
  destruct (xs !! j) as [v|] eqn:E; simpl; [|exact Hc].
  rewrite Forall_forall in Hall. apply Hall.
  apply list_elem_of_lookup. eauto.
Qed.

Lemma nth_nonneg (xs : list Q) (j : nat) :
  Forall (fun x => 0 <= x) xs -> 0 <= nth j xs 0.
Proof.
  intros Hall. rewrite nth_lookup.
  destruct (xs !! j) as [v|] eqn:E; simpl; [|lra].
  rewrite Forall_forall in Hall. apply Hall.
  apply list_elem_of_lookup. eauto.
Qed.

(** A window over samples that are at most [c] sums to at most [w * c]. *)
Lemma window_sum_le (xs : list Q) (c : Q) (w i : nat) :
  Forall (fun x => x <= c) xs -> 0 <= c ->
  window_sum xs i w <= inject_Z (Z.of_nat w) * c.
Proof.
  intros Hall Hc. revert i. induction w as [|w IH]; intros i.
  - change (0 <= 0 * c). lra.
  - rewrite inject_Z_S. simpl window_sum.
    pose proof (nth_bounded xs c i Hall Hc) as Hi.
    destruct i as [|i'].
    + pose proof (inject_Z_nat_nonneg w) as Hw.
      assert (0 <= inject_Z (Z.of_nat w) * c) by now apply Qmult_le_0_compat.
      lra.
    + specialize (IH i'). lra.
Qed.

Lemma mean_le (xs : list Q) (c : Q) (w i : nat) :
  (0 < w)%nat -> Forall (fun x => x <= c) xs -> 0 <= c -> mean xs i w <= c.
Proof.
  intros Hw Hall Hc. unfold mean.
  apply Qle_shift_div_r; [now apply inject_Z_nat_pos|].
  rewrite Qmult_comm. now apply window_sum_le.
Qed.

Lemma window_sum_nonneg (xs : list Q) (w i : nat) :
  Forall (fun x => 0 <= x) xs -> 0 <= window_sum xs i w.
Proof.
  intros Hall. revert i. induction w as [|w IH]; intros i; simpl; [lra|].
  pose proof (nth_nonneg xs i Hall).
  destruct i as [|i']; [lra|]. specialize (IH i'). lra.
Qed.

(** *** Widening the window *)

Lemma window_sum_S (xs : list Q) (w i : nat) :
  window_sum xs i (S w) == window_sum xs i w + older xs i w.
Proof.
  revert i. induction w as [|w IH]; intros i.
  - unfold older. simpl. rewrite Nat.sub_0_r. destruct i; lra.
  - change (window_sum xs i (S (S w)))
      with (nth i xs 0 + match i with
                         | O => 0
                         | S i' => window_sum xs i' (S w)
                         end).
    destruct i as [|i'].
    + unfold older. simpl. lra.
    + rewrite (IH i').
      change (window_sum xs (S i') (S w))
        with (nth (S i') xs 0 + window_sum xs i' w).
      assert (older xs (S i') (S w) = older xs i' w) as -> by reflexivity.
      lra.
Qed.

(** A window that lies inside the recording and whose samples are at least [c]
    sums to at least [w * c]. *)
Lemma window_sum_ge (xs : list Q) (c : Q) (w i : nat) :
  (w <= S i)%nat ->
  (forall j, (j <= i)%nat -> (i < j + w)%nat -> c <= nth j xs 0) ->
  inject_Z (Z.of_nat w) * c <= window_sum xs i w.
Proof.
  revert i. induction w as [|w IH]; intros i Hw Hc.
  - change (0 * c <= 0). lra.
  - rewrite inject_Z_S. simpl window_sum.
    assert (c <= nth i xs 0) as Hi by (apply Hc; lia).
    destruct i as [|i'].
    + assert (w = 0%nat) as -> by lia.
      change (inject_Z (Z.of_nat 0)) with 0. simpl window_sum. lra.
    + assert (inject_Z (Z.of_nat w) * c <= window_sum xs i' w) as Hrec.
      { apply IH; [lia|]. intros j Hj1 Hj2. apply Hc; lia. }
      lra.
Qed.

(** The sample before the window is no larger than the mean of the window. *)
Lemma older_le_window (xs : list Q) (w i : nat) :
  nondecreasing xs -> Forall (fun x => 0 <= x) xs ->
  (i < length xs)%nat ->
  inject_Z (Z.of_nat w) * older xs i w <= window_sum xs i w.
Proof.
  intros Hmono Hnn Hi. unfold older.
  destruct (Nat.leb_spec w i) as [Hle|Hgt].
  - apply window_sum_ge; [lia|].
    intros j Hj1 Hj2. apply Hmono; lia.
  - pose proof (window_sum_nonneg xs w i Hnn). lra.
Qed.

Lemma mean_S_le (xs : list Q) (w i : nat) :
  nondecreasing xs -> Forall (fun x => 0 <= x) xs ->
  (i < length xs)%nat -> (0 < w)%nat ->
  mean xs i (S w) <= mean xs i w.
Proof.
  intros Hmono Hnn Hi Hw. unfold mean.
  pose proof (older_le_window xs w i Hmono Hnn Hi) as Hold.
  pose proof (inject_Z_nat_pos w Hw) as HW.
  rewrite window_sum_S, inject_Z_S.
  set (W := inject_Z (Z.of_nat w)) in *.
  set (s := window_sum xs i w) in *.
  set (y := older xs i w) in *.
  apply Qle_shift_div_r; [lra|].
  assert (s / W * (W + 1) == s + s / W) as -> by (field; lra).
  assert (y <= s / W).
  { apply Qle_shift_div_l; [exact HW|]. lra. }
  lra.
Qed.

Lemma mean_widen (xs : list Q) (w1 w2 i : nat) :
  nondecreasing xs -> Forall (fun x => 0 <= x) xs ->
  (i < length xs)%nat -> (0 < w1)%nat -> (w1 <= w2)%nat ->
  mean xs i w2 <= mean xs i w1.
Proof.
  intros Hmono Hnn Hi Hw1 Hle.
  induction Hle as [|w2 Hle IH]; [lra|].
  apply Qle_trans with (mean xs i w2); [|exact IH].
  apply mean_S_le; auto. lia.
Qed.

(** On a rising series a crossing of the wider window is a crossing of the
    narrower one at the same sample. *)
Lemma exceeds_narrower (rate : list Q) (w1 w2 : Z) (thr : Q) (k : nat) :
  nondecreasing rate -> Forall (fun x => 0 <= x) rate ->
  (0 < w1)%Z -> (w1 <= w2)%Z ->
  exceeds_at (moving_average rate w2) thr k ->
  exceeds_at (moving_average rate w1) thr k.
Proof.
  intros Hmono Hnn Hw1 Hle (v & Hv & Hgt).
  pose proof (moving_average_lookup_lt _ _ _ _ Hv) as Hk.
  rewrite moving_average_lookup_mean in Hv by (lia || assumption).
  injection Hv as <-.
  exists (mean rate k (Z.to_nat w1)). split.
  - apply moving_average_lookup_mean; assumption.
  - apply Qlt_le_trans with (mean rate k (Z.to_nat w2)); [exact Hgt|].
    apply mean_widen; auto; lia.
Qed.

End Smoothing.

(** ** The detector on both sides *)

Section Detector.

Import Numpy Brian2.

Lemma get_decision_time_Some (rate_A rate_B : list Q) (w : Z) (thr dt t_A t_B : Q) :
  get_decision_time rate_A rate_B w thr dt = Some (t_A, t_B) <->
  decision_time rate_A w thr dt = Some t_A /\
  decision_time rate_B w thr dt = Some t_B.
Proof.
  unfold get_decision_time. split.
  - destruct (decision_time rate_A w thr dt) as [a|]; [|discriminate].
    destruct (decision_time rate_B w thr dt) as [b|]; [|discriminate].
    intros [= -> ->]. split; reflexivity.
  - intros [-> ->]. reflexivity.
Qed.

Lemma decision_time_total (rate : list Q) (w : Z) (thr dt : Q) :
  (0 < w)%Z -> rate <> [] -> exists t, decision_time rate w thr dt = Some t.
Proof.
  intros Hw Hne.
  destruct (decision_time_cases rate w thr dt Hw Hne) as [(k & _ & E)|[_ E]];
    eauto.
Qed.

Lemma crosses_first (sm : list Q) (thr : Q) :
  crosses sm thr -> exists k, first_crossing sm thr k.
Proof.
  intros Hc. destruct (first_crossing_dec sm thr) as [H|H]; [exact H|].
  contradiction.
Qed.

Lemma first_crossing_crosses (sm : list Q) (thr : Q) (k : nat) :
  first_crossing sm thr k -> crosses sm thr.
Proof. intros [Hk _]. now exists k. Qed.

Lemma step_series_first_crossing (n : nat) :
  first_crossing (step_series n) 45 50.
Proof.
  unfold step_series. split.
  - exists 60. split; [|reflexivity].
    rewrite lookup_app_r; rewrite repeat_length; [|lia]. reflexivity.
  - intros j Hj (v & Hv & Hgt).
    rewrite lookup_app_l in Hv by (rewrite repeat_length; lia).
    apply list_elem_of_lookup_2, list_elem_of_In, repeat_spec in Hv.
    subst v. discriminate.
Qed.

Lemma constant_not_crosses (c thr : Q) (n : nat) (w : Z) :
  (0 < w)%Z -> 0 <= c -> c <= thr ->
  ~ crosses (moving_average (repeat c n) w) thr.
Proof.
  intros Hw Hc Hthr (k & v & Hv & Hgt).
  pose proof (moving_average_lookup_lt _ _ _ _ Hv) as Hk.
  rewrite moving_average_lookup_mean in Hv by assumption.
  injection Hv as <-.
  assert (mean (repeat c n) k (Z.to_nat w) <= c).
  { apply mean_le; [lia| |exact Hc].
    apply Forall_forall. intros x Hx.
    apply list_elem_of_In, repeat_spec in Hx. subst x. lra. }
  lra.
Qed.

(** With a positive step a returned time is non-zero exactly when the series
    has a first crossing after its first sample. *)
Lemma decision_time_nonzero_iff (rate : list Q) (w : Z) (thr dt t : Q) :
  0 < dt ->
  decision_time rate w thr dt = Some t ->
  (~ t == 0
   <-> crosses (moving_average rate w) thr
       /\ ~ exceeds_at (moving_average rate w) thr 0).
Proof.
  intros Hdt H. apply decision_time_inv in H.
  destruct H as (_ & [(k & Hk & ->)|[Hno ->]]).
  - destruct k as [|k].
    + split.
      * intros Hnz. exfalso. apply Hnz. apply time_of_0.
      * intros [_ Hn0]. exfalso. apply Hn0. now destruct Hk.
    + split.
      * intros _. split; [now apply first_crossing_crosses with (S k)|].
        destruct Hk as [_ Hbefore]. apply Hbefore. lia.
      * intros _ E.
        pose proof (time_of_pos (S k) dt ltac:(lia) Hdt) as Hpos.
        rewrite E in Hpos. now apply Qlt_irrefl in Hpos.
  - split.
    + intros Hnz. exfalso. apply Hnz. apply time_of_0.
    + intros [Hc _]. contradiction.
Qed.


End Detector.

(** ** Properties of the detector *)

Section Properties.

Import Numpy Brian2.

(** C1: on a positive window and two recordings that are not empty the
    detector returns a pair, and on each side whose smoothed series first
    exceeds the threshold at sample [k] the time of the pair is [k * dt]. *)
Theorem first_crossing_time (rate_A rate_B : list Q) (w : Z) (thr dt : Q) :
  (0 < w)%Z -> rate_A <> [] -> rate_B <> [] ->
  exists t_A t_B,
    get_decision_time rate_A rate_B w thr dt = Some (t_A, t_B)
    /\ (forall k, first_crossing (moving_average rate_A w) thr k ->
                  t_A = inject_Z (Z.of_nat k) * dt)
    /\ (forall k, first_crossing (moving_average rate_B w) thr k ->
                  t_B = inject_Z (Z.of_nat k) * dt).
Proof.
  intros Hw HA HB.
  destruct (decision_time_total rate_A w thr dt Hw HA) as [t_A EA].
  destruct (decision_time_total rate_B w thr dt Hw HB) as [t_B EB].
  exists t_A, t_B. split; [now apply get_decision_time_Some|]. split.
  - intros k Hk. rewrite (decision_time_first _ _ _ dt _ Hw Hk) in EA.
    now injection EA as <-.
  - intros k Hk. rewrite (decision_time_first _ _ _ dt _ Hw Hk) in EB.
    now injection EB as <-.
Qed.

Lemma first_crossing_time_witness :
  exists t_A t_B,
    get_decision_time [0; 60; 60] [0; 0; 0] 2 45 1 = Some (t_A, t_B)
    /\ (forall k, first_crossing (moving_average [0; 60; 60] 2) 45 k ->
                  t_A = inject_Z (Z.of_nat k) * 1)
    /\ (forall k, first_crossing (moving_average [0; 0; 0] 2) 45 k ->
                  t_B = inject_Z (Z.of_nat k) * 1).
Proof.
  apply (first_crossing_time [0; 60; 60] [0; 0; 0] 2 45 1);
    [lia | discriminate | discriminate].
Defined.

(** C2: with the left series silent for samples 0 to 49 and at 60 Hz from
    sample 50 on, the right series silent throughout, a step of 1 ms, a
    threshold of 45 Hz and a window of one sample, the detector returns
    (50 ms, 0 ms), however long the recording goes on. *)
Theorem scenario_left_decision (n : nat) :
  get_decision_time (step_series n) (repeat 0 (50 + S n)) 1 45 1
  = Some (50, 0).
Proof.
  unfold get_decision_time.
  rewrite (decision_time_first (step_series n) 1 45 1 50).
  - rewrite decision_time_none; [reflexivity|lia|discriminate|].
    apply constant_not_crosses; [lia|lra|lra].
  - lia.
  - rewrite moving_average_one. apply step_series_first_crossing.
Qed.

(** C3: on a positive window and two recordings that are not empty the
    detector returns a pair whose time is zero on each side whose smoothed
    series stays strictly below the threshold over its whole length; two
    series constant at 10 Hz against a threshold of 45 Hz give (0, 0). *)
Theorem below_threshold_zero :
  (forall (rate_A rate_B : list Q) (w : Z) (thr dt : Q),
     (0 < w)%Z -> rate_A <> [] -> rate_B <> [] ->
     exists t_A t_B,
       get_decision_time rate_A rate_B w thr dt = Some (t_A, t_B)
       /\ (Forall (fun v => v < thr) (moving_average rate_A w) -> t_A == 0)
       /\ (Forall (fun v => v < thr) (moving_average rate_B w) -> t_B == 0))
  /\ (forall (n : nat) (w : Z) (dt : Q),
        (0 < n)%nat -> (0 < w)%Z ->
        exists t_A t_B,
          get_decision_time (repeat 10 n) (repeat 10 n) w 45 dt = Some (t_A, t_B)
          /\ t_A == 0 /\ t_B == 0).
Proof.
  split.
  - intros rate_A rate_B w thr dt Hw HA HB.
    destruct (decision_time_total rate_A w thr dt Hw HA) as [t_A EA].
    destruct (decision_time_total rate_B w thr dt Hw HB) as [t_B EB].
    exists t_A, t_B. split; [now apply get_decision_time_Some|]. split.
    + intros Hbelow. apply below_not_crosses in Hbelow.
      rewrite (decision_time_none _ _ _ dt Hw HA Hbelow) in EA.
      injection EA as <-. apply time_of_0.
    + intros Hbelow. apply below_not_crosses in Hbelow.
      rewrite (decision_time_none _ _ _ dt Hw HB Hbelow) in EB.
      injection EB as <-. apply time_of_0.
  - intros n w dt Hn Hw.
    assert (repeat 10 n <> []) as Hne by (destruct n; [lia|discriminate]).
    assert (~ crosses (moving_average (repeat 10 n) w) 45) as Hno
      by (apply constant_not_crosses; [lia|lra|lra]).
    exists (time_of 0 dt), (time_of 0 dt). split.
    + apply get_decision_time_Some.
      split; now apply decision_time_none.
    + split; apply time_of_0.
Qed.

Lemma below_threshold_zero_witness :
  (exists t_A t_B,
     get_decision_time [10; 20] [30; 5; 7] 2 45 1 = Some (t_A, t_B)
     /\ (Forall (fun v => v < 45) (moving_average [10; 20] 2) -> t_A == 0)
     /\ (Forall (fun v => v < 45) (moving_average [30; 5; 7] 2) -> t_B == 0))
  /\ (exists t_A t_B,
        get_decision_time (repeat 10 4) (repeat 10 4) 3 45 1 = Some (t_A, t_B)
        /\ t_A == 0 /\ t_B == 0).
Proof.
  split.
  - apply (proj1 below_threshold_zero [10; 20] [30; 5; 7] 2%Z 45 1);
      [lia | discriminate | discriminate].
  - apply (proj2 below_threshold_zero 4%nat 3%Z 1); lia.
Defined.

(** C4 as stated fails: two series of equal length, a positive window and a
    threshold that is not negative, and both returned times are non-zero. *)
Lemma two_decisions_on_wellformed_input :
  length [0; 60; 60] = length [0; 0; 60]
  /\ (0 < 1)%Z /\ 0 <= 45
  /\ get_decision_time [0; 60; 60] [0; 0; 60] 1 45 1 = Some (1, 2)
  /\ ~ 1 == 0 /\ ~ 2 == 0.
Proof.
  split; [reflexivity|]. split; [reflexivity|]. split; [discriminate|].
  split; [reflexivity|]. split; discriminate.
Qed.

(** C4, amended: with a positive step, the two times of a returned pair are
    both non-zero exactly when each smoothed series exceeds the threshold
    somewhere but not at its first sample; on every other input at least one
    of the two times is zero. *)
Theorem two_decisions_characterised (rate_A rate_B : list Q) (w : Z)
    (thr dt t_A t_B : Q) :
  0 < dt ->
  get_decision_time rate_A rate_B w thr dt = Some (t_A, t_B) ->
  ((~ t_A == 0 /\ ~ t_B == 0)
   <-> (crosses (moving_average rate_A w) thr
        /\ ~ exceeds_at (moving_average rate_A w) thr 0)
       /\ (crosses (moving_average rate_B w) thr
           /\ ~ exceeds_at (moving_average rate_B w) thr 0))
  /\ ((~ (crosses (moving_average rate_A w) thr
          /\ ~ exceeds_at (moving_average rate_A w) thr 0)
       \/ ~ (crosses (moving_average rate_B w) thr
             /\ ~ exceeds_at (moving_average rate_B w) thr 0)) ->
      t_A == 0 \/ t_B == 0).
Proof.
  intros Hdt H. apply get_decision_time_Some in H. destruct H as [EA EB].
  pose proof (decision_time_nonzero_iff _ _ _ _ _ Hdt EA) as IA.
  pose proof (decision_time_nonzero_iff _ _ _ _ _ Hdt EB) as IB.
  split.
  - split.
    + intros [NA NB]. split; [now apply IA|now apply IB].
    + intros [CA CB]. split; [now apply IA|now apply IB].
  - intros [NA|NB].
    + left. destruct (Qeq_dec t_A 0) as [E|E]; [exact E|].
      exfalso. apply NA. now apply IA.
    + right. destruct (Qeq_dec t_B 0) as [E|E]; [exact E|].
      exfalso. apply NB. now apply IB.
Qed.

Lemma two_decisions_characterised_witness :
  ((~ 1 == 0 /\ ~ 2 == 0)
   <-> (crosses (moving_average [0; 60; 60] 1) 45
        /\ ~ exceeds_at (moving_average [0; 60; 60] 1) 45 0)
       /\ (crosses (moving_average [0; 0; 60] 1) 45
           /\ ~ exceeds_at (moving_average [0; 0; 60] 1) 45 0))
  /\ ((~ (crosses (moving_average [0; 60; 60] 1) 45
          /\ ~ exceeds_at (moving_average [0; 60; 60] 1) 45 0)
       \/ ~ (crosses (moving_average [0; 0; 60] 1) 45
             /\ ~ exceeds_at (moving_average [0; 0; 60] 1) 45 0)) ->
      1 == 0 \/ 2 == 0).
Proof.
  apply (two_decisions_characterised [0; 60; 60] [0; 0; 60] 1%Z 45 1 1 2).
  - reflexivity.
  - reflexivity.
Defined.

(** C5 as stated fails: two recordings of different lengths, and a negative
    threshold, are accepted, and the detector returns a pair on both. *)
Lemma malformed_input_accepted :
  (length [0; 60] <> length [0]
   /\ get_decision_time [0; 60] [0] 1 45 1 = Some (1, 0))
  /\ (-1 < 0
      /\ get_decision_time [0; 60] [0; 0] 1 (-1) 1 = Some (0, 0)).
Proof.
  split; (split; [|reflexivity]).
  - discriminate.
  - reflexivity.
Qed.

(** C5, amended: the lengths of the two series and the sign of the
    threshold are not examined: on a positive window and two recordings that
    are not empty, each side is processed on its own and the pair of the two
    times is returned, whatever the two lengths and the threshold. *)
Theorem lengths_and_threshold_not_validated (rate_A rate_B : list Q) (w : Z)
    (thr dt : Q) :
  (0 < w)%Z -> rate_A <> [] -> rate_B <> [] ->
  exists t_A t_B,
    decision_time rate_A w thr dt = Some t_A
    /\ decision_time rate_B w thr dt = Some t_B
    /\ get_decision_time rate_A rate_B w thr dt = Some (t_A, t_B).
Proof.
  intros Hw HA HB.
  destruct (decision_time_total rate_A w thr dt Hw HA) as [t_A EA].
  destruct (decision_time_total rate_B w thr dt Hw HB) as [t_B EB].
  exists t_A, t_B. split; [exact EA|]. split; [exact EB|].
  now apply get_decision_time_Some.
Qed.

Lemma lengths_and_threshold_not_validated_witness :
  exists t_A t_B,
    decision_time [0; 60] 1 (-1) 1 = Some t_A
    /\ decision_time [0] 1 (-1) 1 = Some t_B
    /\ get_decision_time [0; 60] [0] 1 (-1) 1 = Some (t_A, t_B).
Proof.
  apply (lengths_and_threshold_not_validated [0; 60] [0] 1%Z (-1) 1);
    [lia | discriminate | discriminate].
Defined.

(** C6 as stated fails: both series cross the threshold, the left one at its
    first sample, and the left time is zero. *)
Lemma crossing_at_first_sample_is_zero :
  crosses (moving_average [60; 60] 1) 45
  /\ crosses (moving_average [0; 60] 1) 45
  /\ get_decision_time [60; 60] [0; 60] 1 45 1 = Some (0, 1).
Proof.
  rewrite !moving_average_one. split; [|split].
  - exists 0%nat, 60. split; reflexivity.
  - exists 1%nat, 60. split; reflexivity.
  - reflexivity.
Qed.

(** C6, amended: when both smoothed series exceed the threshold the detector
    raises no error and picks no side: it returns the pair of the times of
    the two first crossings, [k * dt] on each side; both times are non-zero
    when neither first crossing is at sample 0 and the step is positive. *)
Theorem both_crossings_reported (rate_A rate_B : list Q) (w : Z) (thr dt : Q) :
  (0 < w)%Z ->
  crosses (moving_average rate_A w) thr ->
  crosses (moving_average rate_B w) thr ->
  exists k_A k_B,
    first_crossing (moving_average rate_A w) thr k_A
    /\ first_crossing (moving_average rate_B w) thr k_B
    /\ get_decision_time rate_A rate_B w thr dt
       = Some (inject_Z (Z.of_nat k_A) * dt, inject_Z (Z.of_nat k_B) * dt)
    /\ (0 < dt -> (0 < k_A)%nat -> (0 < k_B)%nat ->
        ~ inject_Z (Z.of_nat k_A) * dt == 0
        /\ ~ inject_Z (Z.of_nat k_B) * dt == 0).
Proof.
  intros Hw HA HB.
  destruct (crosses_first _ _ HA) as [k_A FA].
  destruct (crosses_first _ _ HB) as [k_B FB].
  exists k_A, k_B. split; [exact FA|]. split; [exact FB|]. split.
  - apply get_decision_time_Some. split; now apply decision_time_first.
  - intros Hdt HkA HkB.
    pose proof (time_of_pos k_A dt HkA Hdt) as PA.
    pose proof (time_of_pos k_B dt HkB Hdt) as PB.
    unfold time_of in PA, PB. split; intros E; rewrite E in *; lra.
Qed.

Lemma both_crossings_reported_witness :
  exists k_A k_B,
    first_crossing (moving_average [0; 60; 60] 1) 45 k_A
    /\ first_crossing (moving_average [0; 0; 60] 1) 45 k_B
    /\ get_decision_time [0; 60; 60] [0; 0; 60] 1 45 1
       = Some (inject_Z (Z.of_nat k_A) * 1, inject_Z (Z.of_nat k_B) * 1)
    /\ (0 < 1 -> (0 < k_A)%nat -> (0 < k_B)%nat ->
        ~ inject_Z (Z.of_nat k_A) * 1 == 0
        /\ ~ inject_Z (Z.of_nat k_B) * 1 == 0).
Proof.
  apply (both_crossings_reported [0; 60; 60] [0; 0; 60] 1%Z 45 1).
  - lia.
  - rewrite moving_average_one. exists 1%nat, 60. split; reflexivity.
  - rewrite moving_average_one. exists 2%nat, 60. split; reflexivity.
Defined.

(** C7: smoothing with a flat window of one sample returns the raw series,
    and the detector with a window of one sample is the thresholding of the
    two raw series. *)
Theorem window_one_is_identity (rate_A rate_B : list Q) (thr dt : Q) :
  smooth_rate rate_A 1 = Some rate_A
  /\ decision_time rate_A 1 thr dt = threshold_raw rate_A thr dt
  /\ get_decision_time rate_A rate_B 1 thr dt
     = match threshold_raw rate_A thr dt, threshold_raw rate_B thr dt with
       | Some t_A, Some t_B => Some (t_A, t_B)
       | _, _ => None
       end.
Proof.
  assert (forall rate, decision_time rate 1 thr dt = threshold_raw rate thr dt)
    as Hside.
  { intros rate. unfold decision_time, threshold_raw.
    rewrite smooth_rate_pos by lia. now rewrite moving_average_one. }
  split; [|split].
  - rewrite smooth_rate_pos by lia. now rewrite moving_average_one.
  - apply Hside.
  - unfold get_decision_time. rewrite !Hside.
    destruct (threshold_raw rate_A thr dt), (threshold_raw rate_B thr dt);
      reflexivity.
Qed.

(** C8: on a series that never falls, with windows [w1 <= w2], the detector's
    time under the wider window is at least its time under the narrower one,
    unless the narrower window has a crossing and the wider window has none;
    when both have a crossing, the first crossing of the wider window is not
    at an earlier sample. *)
Theorem wider_window_never_earlier (rate : list Q) (w1 w2 : Z) (thr dt : Q) :
  nondecreasing rate -> Forall (fun x => 0 <= x) rate -> rate <> [] ->
  (0 < w1)%Z -> (w1 <= w2)%Z -> 0 <= dt ->
  (exists t1 t2,
     decision_time rate w1 thr dt = Some t1
     /\ decision_time rate w2 thr dt = Some t2
     /\ (t1 <= t2
         \/ (crosses (moving_average rate w1) thr
             /\ ~ crosses (moving_average rate w2) thr)))
  /\ (forall k1 k2,
        first_crossing (moving_average rate w1) thr k1 ->
        first_crossing (moving_average rate w2) thr k2 ->
        (k1 <= k2)%nat).
Proof.
  intros Hmono Hnn Hne Hw1 Hle Hdt.
  assert (Hw2 : (0 < w2)%Z) by lia.
  assert (Horder : forall k1 k2,
             first_crossing (moving_average rate w1) thr k1 ->
             first_crossing (moving_average rate w2) thr k2 ->
             (k1 <= k2)%nat).
  { intros k1 k2 [_ Hbefore] [Hk2 _].
    destruct (Nat.le_gt_cases k1 k2) as [H|H]; [exact H|].
    exfalso. apply (Hbefore k2 H).
    now apply exceeds_narrower with w2. }
  split; [|exact Horder].
  destruct (decision_time_cases rate w2 thr dt Hw2 Hne)
    as [(k2 & F2 & E2)|[N2 E2]];
  destruct (decision_time_cases rate w1 thr dt Hw1 Hne)
    as [(k1 & F1 & E1)|[N1 E1]];
  eexists _, _; (split; [exact E1|]); (split; [exact E2|]).
  - left. apply time_of_mono; [|exact Hdt]. now apply Horder.
  - exfalso. apply N1. destruct F2 as [Hk2 _]. exists k2.
    now apply exceeds_narrower with w2.
  - right. split; [|exact N2]. now apply first_crossing_crosses with k1.
  - left. apply Qle_refl.
Qed.

Lemma wider_window_never_earlier_witness :
  (exists t1 t2,
     decision_time [0; 40; 60; 60] 1 45 1 = Some t1
     /\ decision_time [0; 40; 60; 60] 2 45 1 = Some t2
     /\ (t1 <= t2
         \/ (crosses (moving_average [0; 40; 60; 60] 1) 45
             /\ ~ crosses (moving_average [0; 40; 60; 60] 2) 45)))
  /\ (forall k1 k2,
        first_crossing (moving_average [0; 40; 60; 60] 1) 45 k1 ->
        first_crossing (moving_average [0; 40; 60; 60] 2) 45 k2 ->
        (k1 <= k2)%nat).
Proof.
  apply (wider_window_never_earlier [0; 40; 60; 60] 1%Z 2%Z 45 1).
  - intros i j Hij Hj. simpl in Hj.
    destruct j as [|[|[|[|j]]]]; [| | | |lia];
      destruct i as [|[|[|[|i]]]]; try lia; simpl; lra.
  - repeat constructor; lra.
  - discriminate.
  - lia.
  - lia.
  - lra.
Defined.



(** C10: a series whose smoothed rate exceeds the threshold already at
    sample 0 gets the time 0, the very result of a series that never crosses:
    exchanging one for the other on either side does not change what the
    detector returns. *)
Theorem crossing_at_sample_zero_is_no_decision (rate quiet other : list Q)
    (w : Z) (thr dt : Q) :
  (0 < w)%Z ->
  exceeds_at (moving_average rate w) thr 0 ->
  quiet <> [] ->
  ~ crosses (moving_average quiet w) thr ->
  (exists t, decision_time rate w thr dt = Some t /\ t == 0)
  /\ decision_time rate w thr dt = decision_time quiet w thr dt
  /\ get_decision_time rate other w thr dt = get_decision_time quiet other w thr dt
  /\ get_decision_time other rate w thr dt = get_decision_time other quiet w thr dt.
Proof.
  intros Hw H0 Hne Hno.
  assert (first_crossing (moving_average rate w) thr 0) as F0.
  { split; [exact H0|]. intros j Hj. lia. }
  pose proof (decision_time_first rate w thr dt 0 Hw F0) as E1.
  pose proof (decision_time_none quiet w thr dt Hw Hne Hno) as E2.
  split; [|split; [|split]].
  - exists (time_of 0 dt). split; [exact E1|]. apply time_of_0.
  - now rewrite E1, E2.
  - unfold get_decision_time. now rewrite E1, E2.
  - unfold get_decision_time. now rewrite E1, E2.
Qed.

Lemma crossing_at_sample_zero_is_no_decision_witness :
  (exists t, decision_time [60; 60] 1 45 1 = Some t /\ t == 0)
  /\ decision_time [60; 60] 1 45 1 = decision_time [0; 0] 1 45 1
  /\ get_decision_time [60; 60] [0; 60] 1 45 1
     = get_decision_time [0; 0] [0; 60] 1 45 1
  /\ get_decision_time [0; 60] [60; 60] 1 45 1
     = get_decision_time [0; 60] [0; 0] 1 45 1.
Proof.
  apply (crossing_at_sample_zero_is_no_decision [60; 60] [0; 0] [0; 60] 1%Z 45 1).
  - lia.
  - rewrite moving_average_one. exists 60. split; reflexivity.
  - discriminate.
  - rewrite moving_average_one. intros (k & v & Hv & Hgt).
    destruct k as [|[|k]]; simpl in Hv; try discriminate;
      injection Hv as <-; discriminate.
Defined.

End Properties.

(** ** Further properties of the fragment *)

Section Further.

Import Numpy Brian2.

(** Pointwise domination carries first crossings over: when every crossing of
    one thresholded series is a crossing of another at the same sample, the
    other crosses first, and no later. *)
Lemma earlier_crossing (sm1 sm2 : list Q) (thr1 thr2 : Q) (k2 : nat) :
  (forall k, exceeds_at sm2 thr2 k -> exceeds_at sm1 thr1 k) ->
  first_crossing sm2 thr2 k2 ->
  exists k1, first_crossing sm1 thr1 k1 /\ (k1 <= k2)%nat.
Proof.
  intros Hdom [Hk2 _].
  destruct (first_crossing_dec sm1 thr1) as [[k1 F1]|Hno].
  - exists k1. split; [exact F1|].
    destruct (Nat.le_gt_cases k1 k2) as [H|H]; [exact H|].
    exfalso. destruct F1 as [_ Hbefore]. apply (Hbefore k2 H). now apply Hdom.
  - exfalso. apply Hno. exists k2. now apply Hdom.
Qed.

Lemma time_of_nonneg (k : nat) (dt : Q) : 0 <= dt -> 0 <= time_of k dt.
Proof.
  intros Hdt. apply Qle_trans with (time_of 0 dt).
  - rewrite time_of_0. apply Qle_refl.
  - apply time_of_mono; [lia|exact Hdt].
Qed.

Lemma decision_time_empty (w : Z) (thr dt : Q) : decision_time [] w thr dt = None.
Proof.
  reflexivity.
Qed.

(** The sample a returned time stands for lies in the recording. *)
Lemma decision_time_index (rate : list Q) (w : Z) (thr dt t : Q) :
  decision_time rate w thr dt = Some t ->
  exists k, (k < length rate)%nat /\ t = time_of k dt.
Proof.
  intros H. apply decision_time_inv in H.
  destruct H as (Hne & [(k & [(v & Hv & _) _] & ->)|[_ ->]]).
  - exists k. split; [|reflexivity].
    now apply moving_average_lookup_lt in Hv.
  - exists 0%nat. split; [|reflexivity].
    destruct rate; [congruence|simpl; lia].
Qed.

Lemma not_exceeds_nth (xs : list Q) (thr : Q) (j : nat) :
  0 <= thr -> ~ exceeds_at xs thr j -> nth j xs 0 <= thr.
Proof.
  intros Hthr Hno. rewrite nth_lookup.
  destruct (xs !! j) as [v|] eqn:E; simpl; [|exact Hthr].
  apply Qnot_lt_le. intros Hlt. apply Hno. now exists v.
Qed.

(** A window whose samples are at most [c] sums to at most [w * c]. *)
Lemma window_sum_le_upto (xs : list Q) (c : Q) (w i : nat) :
  (forall j, (j <= i)%nat -> nth j xs 0 <= c) -> 0 <= c ->
  window_sum xs i w <= inject_Z (Z.of_nat w) * c.
Proof.
  intros Hall Hc. revert i Hall. induction w as [|w IH]; intros i Hall.
  - change (0 <= 0 * c). lra.
  - rewrite inject_Z_S. simpl window_sum.
    assert (nth i xs 0 <= c) as Hi by (apply Hall; lia).
    destruct i as [|i'].
    + pose proof (inject_Z_nat_nonneg w) as Hw.
      assert (0 <= inject_Z (Z.of_nat w) * c) by now apply Qmult_le_0_compat.
      lra.
    + assert (window_sum xs i' w <= inject_Z (Z.of_nat w) * c) as Hrec.
      { apply IH. intros j Hj. apply Hall. lia. }
      lra.
Qed.

(** A smoothed sample above a non-negative threshold has a raw sample above
    it in its window. *)
Lemma exceeds_smoothed_raw (rate : list Q) (w : Z) (thr : Q) (k : nat) :
  (0 < w)%Z -> 0 <= thr ->
  exceeds_at (moving_average rate w) thr k ->
  exists j, (j <= k)%nat /\ exceeds_at rate thr j.
Proof.
  intros Hw Hthr (v & Hv & Hgt).
  pose proof (moving_average_lookup_lt _ _ _ _ Hv) as Hk.
  rewrite moving_average_lookup_mean in Hv by assumption. injection Hv as <-.
  destruct (first_crossing_dec rate thr) as [[k0 [H0 Hbefore]]|Hno].
  - destruct (Nat.le_gt_cases k0 k) as [Hle|Hlt]; [now exists k0|].
    exfalso. apply (Qlt_not_le _ _ Hgt). unfold mean.
    apply Qle_shift_div_r; [apply inject_Z_nat_pos; lia|].
    rewrite Qmult_comm. apply window_sum_le_upto; [|exact Hthr].
    intros j Hj. apply not_exceeds_nth; [exact Hthr|]. apply Hbefore. lia.
  - exfalso. apply (Qlt_not_le _ _ Hgt). unfold mean.
    apply Qle_shift_div_r; [apply inject_Z_nat_pos; lia|].
    rewrite Qmult_comm. apply window_sum_le_upto; [|exact Hthr].
    intros j Hj. apply not_exceeds_nth; [exact Hthr|].
    intros Hex. apply Hno. now exists j.
Qed.

(** The causal window does not look at later samples. *)
Lemma window_sum_app (xs ys : list Q) (w i : nat) :
  (i < length xs)%nat -> window_sum (xs ++ ys) i w = window_sum xs i w.
Proof.
  revert i. induction w as [|w IH]; intros i Hi; [reflexivity|].
  simpl. rewrite app_nth1 by exact Hi.
  destruct i as [|i']; [reflexivity|]. rewrite IH by lia. reflexivity.
Qed.

Lemma moving_average_app_lookup (xs ys : list Q) (w : Z) (i : nat) :
  (i < length xs)%nat ->
  moving_average (xs ++ ys) w !! i = moving_average xs w !! i.
Proof.
  intros Hi. rewrite !moving_average_lookup.
  - now rewrite window_sum_app.
  - exact Hi.
  - rewrite length_app. lia.
Qed.

Lemma exceeds_at_app (xs ys : list Q) (w : Z) (thr : Q) (k : nat) :
  (k < length xs)%nat ->
  exceeds_at (moving_average (xs ++ ys) w) thr k
  <-> exceeds_at (moving_average xs w) thr k.
Proof.
  intros Hk. unfold exceeds_at. now rewrite moving_average_app_lookup.
Qed.

End Further.

Section FurtherProperties.

Import Numpy Brian2.

(** X1: [numpy.argmax] on a boolean array returns [k] exactly when the array
    is not empty and either [k] is the index of its first [True], or it holds
    no [True] and [k] is 0. *)
Theorem argmax_characterised (bs : list bool) (k : nat) :
  argmax bs = Some k <->
  bs <> [] /\
  ((bs !! k = Some true /\ forall j, (j < k)%nat -> bs !! j <> Some true)
   \/ (k = 0%nat /\ forall j, bs !! j <> Some true)).
Proof.
  split.
  - intros H.
    assert (bs <> []) as Hne by (intros ->; discriminate).
    split; [exact Hne|].
    destruct (first_true_dec bs) as [(k' & Hk' & Hbefore)|Hno].
    + left. rewrite (argmax_first bs k' Hk' Hbefore) in H.
      injection H as <-. now split.
    + right. rewrite (argmax_none bs Hne Hno) in H.
      injection H as <-. now split.
  - intros [Hne [[Hk Hbefore]|[-> Hno]]].
    + now apply argmax_first.
    + now apply argmax_none.
Qed.

(** X2: every time the detector returns is the time of a sample of the
    recording of its side: [k * dt] with [k] below the length of the series,
    hence, for a step that is not negative, between 0 and the time of the
    last sample. *)
Theorem decision_within_recording (rate_A rate_B : list Q) (w : Z)
    (thr dt t_A t_B : Q) :
  get_decision_time rate_A rate_B w thr dt = Some (t_A, t_B) ->
  exists k_A k_B,
    (k_A < length rate_A)%nat /\ (k_B < length rate_B)%nat
    /\ t_A = inject_Z (Z.of_nat k_A) * dt
    /\ t_B = inject_Z (Z.of_nat k_B) * dt
    /\ (0 <= dt ->
        0 <= t_A /\ t_A <= inject_Z (Z.of_nat (length rate_A - 1)) * dt
        /\ 0 <= t_B /\ t_B <= inject_Z (Z.of_nat (length rate_B - 1)) * dt).
Proof.
  intros H. apply get_decision_time_Some in H. destruct H as [EA EB].
  apply decision_time_index in EA, EB.
  destruct EA as (k_A & HkA & ->). destruct EB as (k_B & HkB & ->).
  exists k_A, k_B. repeat split; try assumption.
  - now apply time_of_nonneg.
  - apply (time_of_mono k_A (length rate_A - 1) dt); [lia|assumption].
  - now apply time_of_nonneg.
  - apply (time_of_mono k_B (length rate_B - 1) dt); [lia|assumption].
Qed.

Lemma decision_within_recording_witness :
  exists k_A k_B,
    (k_A < length [0; 20; 50; 70])%nat /\ (k_B < length [0; 10; 10; 5])%nat
    /\ 3 # 10 = inject_Z (Z.of_nat k_A) * (1 # 10)
    /\ 0 # 10 = inject_Z (Z.of_nat k_B) * (1 # 10)
    /\ (0 <= 1 # 10 ->
        0 <= 3 # 10
        /\ 3 # 10 <= inject_Z (Z.of_nat (length [0; 20; 50; 70] - 1)) * (1 # 10)
        /\ 0 <= 0 # 10
        /\ 0 # 10 <= inject_Z (Z.of_nat (length [0; 10; 10; 5] - 1)) * (1 # 10)).
Proof.
  apply (decision_within_recording [0; 20; 50; 70] [0; 10; 10; 5] 2%Z 45
           (1 # 10) (3 # 10) (0 # 10)).
  reflexivity.
Defined.

(** X3: on a positive window the detector raises exactly when one of the two
    recordings is empty, the case in which [numpy.argmax] has nothing to
    scan. *)
Theorem raises_on_empty_recording (rate_A rate_B : list Q) (w : Z) (thr dt : Q) :
  (0 < w)%Z ->
  (get_decision_time rate_A rate_B w thr dt = None
   <-> rate_A = [] \/ rate_B = []).
Proof.
  intros Hw. split.
  - intros H.
    destruct rate_A as [|a rate_A]; [now left|].
    destruct rate_B as [|b rate_B]; [now right|].
    exfalso.
    destruct (decision_time_total (a :: rate_A) w thr dt Hw) as [t_A EA];
      [discriminate|].
    destruct (decision_time_total (b :: rate_B) w thr dt Hw) as [t_B EB];
      [discriminate|].
    unfold get_decision_time in H. rewrite EA, EB in H. discriminate.
  - intros [-> | ->]; unfold get_decision_time.
    + now rewrite decision_time_empty.
    + rewrite decision_time_empty.
      destruct (decision_time rate_A w thr dt); reflexivity.
Qed.

Lemma raises_on_empty_recording_witness :
  get_decision_time [0; 60] [] 1 45 1 = None <-> [0; 60] = [] \/ [] = ([] : list Q).
Proof.
  apply (raises_on_empty_recording [0; 60] [] 1%Z 45 1). lia.
Defined.

(** X4: with a positive step, the time returned for a side is non-zero exactly
    when its smoothed series exceeds the threshold somewhere but not at its
    first sample. *)
Theorem nonzero_time_characterised (rate : list Q) (w : Z) (thr dt t : Q) :
  0 < dt ->
  decision_time rate w thr dt = Some t ->
  (~ t == 0
   <-> crosses (moving_average rate w) thr
       /\ ~ exceeds_at (moving_average rate w) thr 0).
Proof.
  intros Hdt H. apply decision_time_inv in H.
  destruct H as (Hne & [(k & Hk & ->)|[Hno ->]]).
  - destruct k as [|k].
    + split.
      * intros Hnz. exfalso. apply Hnz. apply time_of_0.
      * intros [_ Hn0]. exfalso. apply Hn0. now destruct Hk.
    + split.
      * intros _. split; [now apply first_crossing_crosses with (S k)|].
        destruct Hk as [_ Hbefore]. apply Hbefore. lia.
      * intros _ E.
        pose proof (time_of_pos (S k) dt ltac:(lia) Hdt) as Hpos.
        rewrite E in Hpos. now apply Qlt_irrefl in Hpos.
  - split.
    + intros Hnz. exfalso. apply Hnz. apply time_of_0.
    + intros [Hc _]. contradiction.
Qed.

Lemma nonzero_time_characterised_witness :
  ~ 3 # 10 == 0
  <-> crosses (moving_average [0; 20; 50; 70] 2) 45
      /\ ~ exceeds_at (moving_average [0; 20; 50; 70] 2) 45 0.
Proof.
  apply (nonzero_time_characterised [0; 20; 50; 70] 2%Z 45 (1 # 10) (3 # 10)).
  - reflexivity.
  - reflexivity.
Defined.

(** X5: the comparison is strict: a side whose smoothed series reaches the
    threshold without ever exceeding it gets the time zero. *)
Theorem reaching_threshold_is_no_crossing (rate : list Q) (w : Z) (thr dt : Q) :
  (0 < w)%Z -> rate <> [] ->
  Forall (fun v => v <= thr) (moving_average rate w) ->
  exists t, decision_time rate w thr dt = Some t /\ t == 0.
Proof.
  intros Hw Hne Hall. exists (time_of 0 dt). split; [|apply time_of_0].
  apply decision_time_none; [exact Hw|exact Hne|].
  intros (k & v & Hv & Hgt). rewrite Forall_forall in Hall.
  assert (v <= thr) by (apply Hall; apply list_elem_of_lookup; eauto).
  lra.
Qed.

Lemma reaching_threshold_is_no_crossing_witness :
  exists t, decision_time [0; 45; 45] 1 45 1 = Some t /\ t == 0.
Proof.
  apply (reaching_threshold_is_no_crossing [0; 45; 45] 1%Z 45 1).
  - lia.
  - discriminate.
  - rewrite moving_average_one. repeat constructor; discriminate.
Defined.

(** X6: raising the threshold never brings the decision forward: with
    [thr1 <= thr2] a crossing of [thr2] is a crossing of [thr1], the first
    crossing of [thr1] is at no later a sample, and the returned time under
    [thr2] is at least the one under [thr1] unless the crossing of [thr1] is
    lost under [thr2]. *)
Theorem higher_threshold_never_earlier (rate : list Q) (w : Z)
    (thr1 thr2 dt : Q) :
  (0 < w)%Z -> rate <> [] -> thr1 <= thr2 -> 0 <= dt ->
  (forall k2, first_crossing (moving_average rate w) thr2 k2 ->
     exists k1, first_crossing (moving_average rate w) thr1 k1 /\ (k1 <= k2)%nat)
  /\ exists t1 t2,
       decision_time rate w thr1 dt = Some t1
       /\ decision_time rate w thr2 dt = Some t2
       /\ (t1 <= t2
           \/ (crosses (moving_average rate w) thr1
               /\ ~ crosses (moving_average rate w) thr2)).
Proof.
  intros Hw Hne Hthr Hdt.
  assert (Hdom : forall k, exceeds_at (moving_average rate w) thr2 k ->
                           exceeds_at (moving_average rate w) thr1 k).
  { intros k (v & Hv & Hgt). exists v. split; [exact Hv|]. lra. }
  split.
  - intros k2 F2. exact (earlier_crossing _ _ thr1 thr2 k2 Hdom F2).
  - destruct (decision_time_cases rate w thr2 dt Hw Hne)
      as [(k2 & F2 & E2)|[N2 E2]].
    + destruct (earlier_crossing _ _ thr1 thr2 k2 Hdom F2) as (k1 & F1 & Hle).
      exists (time_of k1 dt), (time_of k2 dt).
      split; [now apply decision_time_first|]. split; [exact E2|].
      left. now apply time_of_mono.
    + destruct (decision_time_cases rate w thr1 dt Hw Hne)
        as [(k1 & F1 & E1)|[N1 E1]];
        eexists _, _; (split; [exact E1|]); (split; [exact E2|]).
      * right. split; [|exact N2]. now apply first_crossing_crosses with k1.
      * left. apply Qle_refl.
Qed.

Lemma higher_threshold_never_earlier_witness :
  (forall k2, first_crossing (moving_average [0; 40; 60] 1) 50 k2 ->
     exists k1, first_crossing (moving_average [0; 40; 60] 1) 30 k1
                /\ (k1 <= k2)%nat)
  /\ exists t1 t2,
       decision_time [0; 40; 60] 1 30 1 = Some t1
       /\ decision_time [0; 40; 60] 1 50 1 = Some t2
       /\ (t1 <= t2
           \/ (crosses (moving_average [0; 40; 60] 1) 30
               /\ ~ crosses (moving_average [0; 40; 60] 1) 50)).
Proof.
  apply (higher_threshold_never_earlier [0; 40; 60] 1%Z 30 50 1).
  - lia.
  - discriminate.
  - discriminate.
  - discriminate.
Defined.

(** X8: a decision, once found, stands: when the smoothed series of a
    recording crosses the threshold, the same recording with later samples
    appended gets the same decision time. *)
Theorem decision_survives_longer_recording (rate later : list Q) (w : Z)
    (thr dt : Q) :
  (0 < w)%Z ->
  crosses (moving_average rate w) thr ->
  decision_time (rate ++ later) w thr dt = decision_time rate w thr dt.
Proof.
  intros Hw Hc.
  destruct (crosses_first _ _ Hc) as [k F].
  assert (Hlen : forall j, (j <= k)%nat -> (j < length rate)%nat).
  { intros j Hj. destruct F as [(v & Hv & _) _].
    apply moving_average_lookup_lt in Hv. lia. }
  assert (first_crossing (moving_average (rate ++ later) w) thr k) as F'.
  { destruct F as [Hk Hbefore]. split.
    - apply exceeds_at_app; [apply Hlen; lia|exact Hk].
    - intros j Hj Hex. apply (Hbefore j Hj).
      apply exceeds_at_app in Hex; [exact Hex|apply Hlen; lia]. }
  rewrite (decision_time_first _ _ _ dt _ Hw F).
  now rewrite (decision_time_first _ _ _ dt _ Hw F').
Qed.

Lemma decision_survives_longer_recording_witness :
  decision_time ([0; 20; 50; 70] ++ [0; 0; 90]) 2 45 1
  = decision_time [0; 20; 50; 70] 2 45 1.
Proof.
  apply (decision_survives_longer_recording [0; 20; 50; 70] [0; 0; 90] 2%Z 45 1).
  - lia.
  - exists 3%nat, ((70 + (50 + 0)) / 2). split; reflexivity.
Defined.

(** X9: against a threshold that is not negative, smoothing never finds a
    crossing the raw series does not have, nor finds it sooner: when the
    smoothed series first crosses at sample [k], the raw series first crosses
    at a sample [k0 <= k], and the decision time on the raw series (window of
    one sample) is at most the decision time on the smoothed one. *)
Theorem smoothing_never_earlier_than_raw (rate : list Q) (w : Z)
    (thr dt : Q) (k : nat) :
  (0 < w)%Z -> 0 <= thr -> 0 <= dt ->
  first_crossing (moving_average rate w) thr k ->
  exists k0,
    first_crossing rate thr k0 /\ (k0 <= k)%nat
    /\ decision_time rate 1 thr dt = Some (inject_Z (Z.of_nat k0) * dt)
    /\ decision_time rate w thr dt = Some (inject_Z (Z.of_nat k) * dt)
    /\ inject_Z (Z.of_nat k0) * dt <= inject_Z (Z.of_nat k) * dt.
Proof.
  intros Hw Hthr Hdt F.
  assert (Hraw : exists j, (j <= k)%nat /\ exceeds_at rate thr j).
  { destruct F as [Hk _]. now apply exceeds_smoothed_raw with w. }
  destruct Hraw as (j & Hj & Hex).
  destruct (crosses_first rate thr) as [k0 F0]; [now exists j|].
  assert (k0 <= j)%nat as Hk0.
  { destruct (Nat.le_gt_cases k0 j) as [H|H]; [exact H|].
    exfalso. destruct F0 as [_ Hbefore]. now apply (Hbefore j H). }
  exists k0. split; [exact F0|]. split; [lia|]. split; [|split].
  - apply decision_time_first; [lia|]. now rewrite moving_average_one.
  - now apply decision_time_first.
  - apply (time_of_mono k0 k dt); [lia|exact Hdt].
Qed.

Lemma smoothing_never_earlier_than_raw_witness :
  exists k0,
    first_crossing [0; 20; 50; 70] 45 k0 /\ (k0 <= 3)%nat
    /\ decision_time [0; 20; 50; 70] 1 45 1 = Some (inject_Z (Z.of_nat k0) * 1)
    /\ decision_time [0; 20; 50; 70] 2 45 1 = Some (inject_Z (Z.of_nat 3) * 1)
    /\ inject_Z (Z.of_nat k0) * 1 <= inject_Z (Z.of_nat 3) * 1.
Proof.
  apply (smoothing_never_earlier_than_raw [0; 20; 50; 70] 2%Z 45 1 3).
  - lia.
  - discriminate.
  - discriminate.
  - split.
    + exists ((70 + (50 + 0)) / 2). split; reflexivity.
    + intros j Hj (v & Hv & Hgt).
      destruct j as [|[|[|j]]]; [| | |lia];
        injection Hv as <-; discriminate.
Defined.

End FurtherProperties.
